(** * circleguard/circleguard.py : the orchestrator [Circleguard.run] and
    [Circleguard.set_options], as a shallow embedding.

    [run] is a Python generator function.  A generator is modelled as the
    finite tree of what its body does when resumed: perform an external
    effect, yield a result, return (StopIteration) or raise.  The consumer
    drives it with [next()]; the body only executes inside a [next()] call. *)

From Stdlib Require Import List Arith Lia Bool.
Import ListNotations.

(** ** Data model *)

(** A loaded replay: [replay.replay_id] and [replay.map_id]. *)
Record replay := mkReplay { replay_id : nat; map_id : nat }.

(** A beatmap returned by [Library.lookup_by_id]. *)
Record beatmap := mkBeatmap { beatmap_id : nat }.

(** [circleguard.detect.Detect]: the enabled detectors and their thresholds.
    [run] reads [Detect.STEAL in d], [Detect.RELAX in d], [d.steal_thresh]
    and [d.ur_thresh]; the correction flag exists but [run] never reads it. *)
Record Detect := mkDetect {
  det_steal : bool;
  det_relax : bool;
  det_correction : bool;
  steal_thresh : nat;
  ur_thresh : nat
}.

(** A [Check] after [c.load(loader)]: [c.all_replays()], [c.all_replays2()]
    and [c.detect]. *)
Record Check := mkCheck {
  all_replays : list replay;
  all_replays2 : list replay;
  detect : Detect
}.

(** [Cacher]: only the attribute [set_options] writes is kept. *)
Record Cacher := mkCacher { should_cache : bool; cacher_db : nat }.

(** How [__init__] set up slider: with [slider_dir=None] a temporary directory
    is created, [self.slider_dir] holds it and [self.library] is [None];
    otherwise [self.library = Library(slider_dir)]. *)
Inductive slider_setup :=
| TempDir (name : nat)
| Persistent (slider_dir : nat).

Record Circleguard := mkCircleguard {
  cg_cache : bool;
  cg_cacher : option Cacher;
  cg_slider : slider_setup
}.

(** [Circleguard.__init__] (the loader and the logger are left out: no claim
    about [set_options] or [run] depends on them). *)
Definition init (db_path : option nat) (slider_dir : option nat) (cache : bool)
    (tmp_name : nat) : Circleguard :=
  {| cg_cache := cache;
     cg_cacher := match db_path with
                  | None => None
                  | Some p => Some {| should_cache := cache; cacher_db := p |}
                  end;
     cg_slider := match slider_dir with
                  | None => TempDir tmp_name
                  | Some d => Persistent d
                  end |}.

(** Library handle used by the relax branch of [run]. *)
Inductive lib_handle :=
| LibTemp (name : nat)
| LibPersistent (slider_dir : nat).

(** Results yielded by [run]. *)
Inductive result :=
| ComparisonResult (r1 r2 : replay) (thresh : nat)
| RelaxResult (r : replay) (thresh : nat).

(** Exceptions that can end the stream. *)
Inductive exn :=
| UnknownMap (map_id : nat).

(** External effects performed by [run]'s body. *)
Inductive effect :=
| ELog                                 (* self.log.info(...) *)
| ELoad                                (* c.load(self.loader) *)
| ECompare (r1 r2 : replay)            (* one pairwise comparison *)
| EConnect (name : nat)                (* Library(self.slider_dir.name) *)
| ELookup (l : lib_handle) (m : nat) (download save : bool)
                                       (* library.lookup_by_id(m, download=.., save=..) *)
| EInvestigate (r : replay)            (* one relax investigation *)
| EClose (name : nat).                 (* library.close() *)

(** The asset provider: what [lookup_by_id] returns for a map id, [None]
    when it raises. *)
Record env := mkEnv { lookup_by_id : nat -> option beatmap }.

(** ** Generators *)

Inductive gen :=
| GDone
| GRaise (x : exn)
| GEff (e : effect) (k : gen)
| GYield (r : result) (k : gen).

(** [yield from g1] followed by the code [g2]; an exception in [g1] skips
    [g2] (there is no [try] in [run]). *)
Fixpoint gapp (g1 g2 : gen) : gen :=
  match g1 with
  | GDone => g2
  | GRaise x => GRaise x
  | GEff e k => GEff e (gapp k g2)
  | GYield r k => GYield r (gapp k g2)
  end.

(** [for x in xs: body(x)]. *)
Fixpoint gfor {A} (xs : list A) (body : A -> gen) : gen :=
  match xs with
  | [] => GDone
  | x :: xs' => gapp (body x) (gfor xs' body)
  end.

(** State of the generator object after some [next()] calls. *)
Inductive status :=
| Suspended (rest : gen)
| Finished (ended : option exn).   (* [None]: StopIteration *)

(** [n] calls of [next()]: the effects performed, the results received and
    the state afterwards.  A call runs the body up to its next [yield]. *)
Fixpoint drive (n : nat) (g : gen) : list effect * list result * status :=
  match n with
  | 0 => ([], [], Suspended g)
  | S n' =>
      match g with
      | GDone => ([], [], Finished None)
      | GRaise x => ([], [], Finished (Some x))
      | GEff e k => let '(es, rs, st) := drive n k in (e :: es, rs, st)
      | GYield r k => let '(es, rs, st) := drive n' k in (es, r :: rs, st)
      end
  end.

(** A consumer that drains the stream ([for r in cg.run(c)]). *)
Fixpoint exhaust (g : gen) : list effect * list result * option exn :=
  match g with
  | GDone => ([], [], None)
  | GRaise x => ([], [], Some x)
  | GEff e k => let '(es, rs, x) := exhaust k in (e :: es, rs, x)
  | GYield r k => let '(es, rs, x) := exhaust k in (es, r :: rs, x)
  end.

(** Everything the body does, in order. *)
Inductive step := SEff (e : effect) | SYield (r : result).

Fixpoint trace (g : gen) : list step :=
  match g with
  | GDone | GRaise _ => []
  | GEff e k => SEff e :: trace k
  | GYield r k => SYield r :: trace k
  end.

(** Abandoning the stream after [n] results: the consumer stops calling
    [next()]; [close()] raises GeneratorExit at the suspended [yield], and
    since neither [run] nor the detectors have a [try]/[finally] or [with]
    around their [yield]s, no further code of the body runs. *)
Definition abandon_after (n : nat) (g : gen) : list effect :=
  fst (fst (drive n g)).

(** ** Detectors *)

(** Modelled from the spec: [Comparer.compare] (circleguard/comparer.py is not
    in the sources).  Without a second set, every unordered pair of the first
    set once, in [itertools.combinations] order; with one, every
    (first, second) pair.  Each pair is computed when pulled and yielded. *)
Fixpoint combinations2 (l : list replay) : list (replay * replay) :=
  match l with
  | [] => []
  | x :: xs => map (fun y => (x, y)) xs ++ combinations2 xs
  end.

Definition compare_pairs (rs1 rs2 : list replay) : list (replay * replay) :=
  match rs2 with
  | [] => combinations2 rs1
  | _ => list_prod rs1 rs2
  end.

Definition compare (thresh : nat) (rs1 rs2 : list replay) : gen :=
  gfor (compare_pairs rs1 rs2)
    (fun '(a, b) => GEff (ECompare a b) (GYield (ComparisonResult a b thresh) GDone)).

(** Modelled from the spec: [Investigator.investigate] (circleguard/investigator.py
    is not in the sources): one relax computation, then its result. *)
Definition investigate (r : replay) (bm : beatmap) (thresh : nat) : gen :=
  GEff (EInvestigate r) (GYield (RelaxResult r thresh) GDone).

(** ** [Circleguard.run] *)

(** The body of [for replay in c.all_replays(): ...] in the relax branch. *)
Definition relax_one (E : env) (library : lib_handle) (thresh : nat) (r : replay) : gen :=
  GEff (ELookup library (map_id r) true true)
    (match lookup_by_id E (map_id r) with
     | None => GRaise (UnknownMap (map_id r))
     | Some bm => investigate r bm thresh
     end).

(** [library = Library(self.slider_dir.name)] or [library = self.library]. *)
Definition library_of (cg : Circleguard) : lib_handle :=
  match cg_slider cg with
  | TempDir n => LibTemp n
  | Persistent p => LibPersistent p
  end.

Definition relax_branch (E : env) (cg : Circleguard) (c : Check) : gen :=
  let d := detect c in
  let library := library_of cg in
  let body := gfor (all_replays c) (relax_one E library (ur_thresh d)) in
  match cg_slider cg with
  | TempDir n => GEff (EConnect n) (gapp body (GEff (EClose n) GDone))
  | Persistent _ => body
  end.

Definition run (E : env) (cg : Circleguard) (c : Check) : gen :=
  let d := detect c in
  GEff ELog (GEff ELoad
    (gapp (if det_steal d
           then compare (steal_thresh d) (all_replays c) (all_replays2 c)
           else GDone)
          (if det_relax d then relax_branch E cg c else GDone))).

(** ** [Circleguard.set_options] *)

Inductive pyerror := AttributeError.

(** The loop over [locals()] visits [self] (skipped) and [cache]; a [None]
    value is skipped.  Returns the instance as it is when the method returns
    or raises, and the exception raised, if any. *)
Definition set_options (cg : Circleguard) (cache : option bool)
    : Circleguard * option pyerror :=
  match cache with
  | None => (cg, None)
  | Some b =>
      let cg1 := {| cg_cache := b; cg_cacher := cg_cacher cg;
                    cg_slider := cg_slider cg |} in
      match cg_cacher cg1 with
      | None => (cg1, Some AttributeError)
      | Some ch =>
          ({| cg_cache := b;
              cg_cacher := Some {| should_cache := b; cacher_db := cacher_db ch |};
              cg_slider := cg_slider cg |}, None)
      end
  end.

(** ** [Circleguard.load] *)

(** The call [Circleguard.load] makes on the loadable:
    [loadable.load(self.loader, self.cache)].  The loader argument is the
    instance's own and is left out; the cache flag is read at call time. *)
Inductive loadable_call := LoadableLoad (cache : bool).

Definition load (cg : Circleguard) : loadable_call := LoadableLoad (cg_cache cg).

(** ** Observations on generators *)

(** How the body ends: [None] on return, [Some x] on raising [x]. *)
Fixpoint gend (g : gen) : option exn :=
  match g with
  | GDone => None
  | GRaise x => Some x
  | GEff _ k | GYield _ k => gend k
  end.

Definition effects_of (t : list step) : list effect :=
  flat_map (fun s => match s with SEff e => [e] | SYield _ => [] end) t.

Definition results_of (t : list step) : list result :=
  flat_map (fun s => match s with SEff _ => [] | SYield r => [r] end) t.

(** Detector computations: a comparison or a relax investigation. *)
Definition is_work (e : effect) : bool :=
  match e with ECompare _ _ | EInvestigate _ => true | _ => false end.

(** Work of the relax detector, including its library handling. *)
Definition is_relax_work (s : step) : bool :=
  match s with
  | SEff (EConnect _) | SEff (ELookup _ _ _ _) | SEff (EInvestigate _)
  | SEff (EClose _) => true
  | _ => false
  end.

Definition is_steal_result (s : step) : bool :=
  match s with SYield (ComparisonResult _ _ _) => true | _ => false end.

Definition is_compare_step (s : step) : bool :=
  match s with SEff (ECompare _ _) => true | _ => false end.

Definition is_library_effect (e : effect) : bool :=
  match e with EConnect _ | ELookup _ _ _ _ | EClose _ => true | _ => false end.

Definition is_connect (e : effect) : bool :=
  match e with EConnect _ => true | _ => false end.

Definition is_close (e : effect) : bool :=
  match e with EClose _ => true | _ => false end.

Definition is_lookup (e : effect) : bool :=
  match e with ELookup _ _ _ _ => true | _ => false end.

(** Every detector computation is immediately followed by its [yield]. *)
Inductive paired : list step -> Prop :=
| paired_nil : paired []
| paired_eff e t : is_work e = false -> paired t -> paired (SEff e :: t)
| paired_work e r t : is_work e = true -> paired t -> paired (SEff e :: SYield r :: t)
| paired_yield r t : paired t -> paired (SYield r :: t).

Fixpoint gsize (g : gen) : nat :=
  match g with
  | GDone | GRaise _ => 0
  | GEff _ k | GYield _ k => S (gsize k)
  end.

Definition count_work (es : list effect) : nat := length (filter is_work es).

(** ** Steps of the detectors and sample inputs *)

(** The comparer: one computation and one result per pair, never raising. *)
Definition compare_steps (thresh : nat) (p : replay * replay) : list step :=
  [SEff (ECompare (fst p) (snd p)); SYield (ComparisonResult (fst p) (snd p) thresh)].

(** The relax loop over replays whose maps all resolve. *)
Definition relax_steps (library : lib_handle) (thresh : nat) (r : replay) : list step :=
  [SEff (ELookup library (map_id r) true true); SEff (EInvestigate r);
   SYield (RelaxResult r thresh)].

(** Every replay's map resolves with the asset provider. *)
Definition lookups_ok (E : env) (rs : list replay) : Prop :=
  forall r, In r rs -> lookup_by_id E (map_id r) <> None.

(** The replays the relax loop reaches: all of them up to and including the
    first whose map fails to resolve (its exception ends the loop). *)
Fixpoint lookups_until_failure (E : env) (rs : list replay) : list replay :=
  match rs with
  | [] => []
  | r :: rs' =>
      match lookup_by_id E (map_id r) with
      | None => [r]
      | Some _ => r :: lookups_until_failure E rs'
      end
  end.

(** What the steal branch of [run] does. *)
Definition steal_part (c : Check) : list step :=
  if det_steal (detect c)
  then flat_map (compare_steps (steal_thresh (detect c)))
         (compare_pairs (all_replays c) (all_replays2 c))
  else [].

(** Sample inputs: replays 1 and 2 share map 10, replay 3 plays map 20. *)
Definition r1 := mkReplay 1 10.
Definition r2 := mkReplay 2 10.
Definition r3 := mkReplay 3 20.
Definition all_maps := mkEnv (fun m => Some (mkBeatmap m)).
Definition cg_tmp := init None None true 0.
Definition both := mkDetect true true false 18 50.

(** A check with a single replay and both detectors: the steal part has no
    pair to compare. *)
Definition one_replay_both := mkCheck [r1] [] both.

Definition relax_only := mkDetect false true false 18 50.

(** The asset provider cannot resolve map 10. *)
Definition no_map10 := mkEnv (fun m => if Nat.eqb m 10 then None else Some (mkBeatmap m)).

Lemma gend_gapp g1 g2 :
  gend (gapp g1 g2) = match gend g1 with None => gend g2 | Some x => Some x end.
Proof. induction g1; simpl; auto. Qed.

Lemma trace_gapp g1 g2 :
  trace (gapp g1 g2) =
  trace g1 ++ match gend g1 with None => trace g2 | Some _ => [] end.
Proof. induction g1; simpl; try rewrite IHg1; auto using app_nil_r. Qed.

Lemma exhaust_trace g :
  exhaust g = (effects_of (trace g), results_of (trace g), gend g).
Proof.
  induction g; simpl; auto; rewrite IHg; reflexivity.
Qed.

Lemma effects_of_cons_eff e t : effects_of (SEff e :: t) = e :: effects_of t.
Proof. reflexivity. Qed.

Lemma effects_of_app t1 t2 : effects_of (t1 ++ t2) = effects_of t1 ++ effects_of t2.
Proof. unfold effects_of. apply flat_map_app. Qed.

Lemma results_of_cons_eff e t : results_of (SEff e :: t) = results_of t.
Proof. reflexivity. Qed.

Lemma results_of_app t1 t2 : results_of (t1 ++ t2) = results_of t1 ++ results_of t2.
Proof. unfold results_of. apply flat_map_app. Qed.

Lemma paired_app t1 t2 : paired t1 -> paired t2 -> paired (t1 ++ t2).
Proof.
  intros H1 H2; induction H1; simpl; [exact H2 | apply paired_eff | apply paired_work | apply paired_yield]; auto.
Qed.

Lemma trace_gfor_paired {A} (xs : list A) (body : A -> gen) :
  (forall x, In x xs -> paired (trace (body x))) -> paired (trace (gfor xs body)).
Proof.
  induction xs as [| x xs IH]; intros H; simpl; [constructor |].
  rewrite trace_gapp. apply paired_app; [apply H; simpl; auto |].
  destruct (gend (body x)); [constructor | apply IH; intros; apply H; simpl; auto].
Qed.

(** What [n] calls of [next()] performed is a prefix of the body's effects. *)
Lemma drive_prefix n g :
  exists rest, effects_of (trace g) = fst (fst (drive n g)) ++ rest.
Proof.
  revert n; induction g as [| x | e k IH | r k IH]; intros [| n]; simpl;
    try (eexists; reflexivity).
  - destruct (IH (S n)) as [rest Hr].
    destruct (drive (S n) k) as [[es rs] st]; simpl in *.
    exists rest; rewrite Hr; reflexivity.
  - destruct (IH n) as [rest Hr].
    destruct (drive n k) as [[es rs] st]; simpl in *.
    exists rest; exact Hr.
Qed.

(** On a paired body, [n] calls of [next()] perform at most as many detector
    computations as results they received, hence at most [n]. *)
Lemma drive_work_bound m : forall n g, gsize g <= m -> paired (trace g) ->
  count_work (fst (fst (drive n g))) <= length (snd (fst (drive n g))) <= n.
Proof.
  induction m as [| m IH]; intros n g Hs Hp.
  - destruct g; simpl in Hs; try lia; destruct n; simpl; unfold count_work; simpl; lia.
  - destruct g as [| x | e k | r k];
      (destruct n as [| n]; [simpl; unfold count_work; simpl; lia |]).
    + unfold count_work; simpl; lia.
    + unfold count_work; simpl; lia.
    + simpl in Hs, Hp. change (drive (S n) (GEff e k))
        with (let '(es, rs, st) := drive (S n) k in (e :: es, rs, st)).
      destruct (is_work e) eqn:Hw.
      * destruct k as [| x | e' k' | r' k']; simpl in Hp;
          inversion Hp as [| ? ? Hw' | ? ? ? ? Hp' | ]; subst; try congruence.
        simpl in Hs.
        specialize (IH n k' ltac:(lia) Hp'). simpl.
        destruct (drive n k') as [[es rs] st]; simpl in *.
        unfold count_work in *; simpl; rewrite Hw; simpl; lia.
      * inversion Hp as [| ? ? ? Hp' | ? ? ? Hw' | ]; subst; try congruence.
        specialize (IH (S n) k ltac:(lia) Hp').
        destruct (drive (S n) k) as [[es rs] st]; simpl in *.
        unfold count_work in *; simpl; rewrite Hw; exact IH.
    + simpl in Hs, Hp. inversion Hp as [| | | ? ? Hp']; subst.
      specialize (IH n k ltac:(lia) Hp'). simpl.
      destruct (drive n k) as [[es rs] st]; simpl in *; lia.
Qed.

Lemma gfor_app {A} (xs ys : list A) body :
  gfor (xs ++ ys) body = gapp (gfor xs body) (gfor ys body).
Proof.
  induction xs as [| x xs IH]; simpl; auto.
  rewrite IH. clear IH. induction (body x); simpl; congruence.
Qed.

Lemma gend_gfor {A} (xs : list A) body :
  (forall x, In x xs -> gend (body x) = None) -> gend (gfor xs body) = None.
Proof.
  induction xs as [| x xs IH]; intros H; simpl; auto.
  rewrite gend_gapp, H by (simpl; auto). apply IH; intros; apply H; simpl; auto.
Qed.

Lemma trace_gfor {A} (xs : list A) body :
  (forall x, In x xs -> gend (body x) = None) ->
  trace (gfor xs body) = flat_map (fun x => trace (body x)) xs.
Proof.
  induction xs as [| x xs IH]; intros H; simpl; auto.
  rewrite trace_gapp, H by (simpl; auto). f_equal. apply IH; intros; apply H; simpl; auto.
Qed.

Lemma gend_compare t rs1 rs2 : gend (compare t rs1 rs2) = None.
Proof. unfold compare. apply gend_gfor. intros [a b] _; reflexivity. Qed.

Lemma trace_compare t rs1 rs2 :
  trace (compare t rs1 rs2) = flat_map (compare_steps t) (compare_pairs rs1 rs2).
Proof.
  unfold compare. rewrite trace_gfor by (intros [a b] _; reflexivity).
  apply flat_map_ext. intros [a b]; reflexivity.
Qed.

Lemma compare_pairs_nil rs2 : compare_pairs [] rs2 = [].
Proof. destruct rs2; reflexivity. Qed.

Lemma relax_loop_ok E library thresh rs :
  lookups_ok E rs ->
  gend (gfor rs (relax_one E library thresh)) = None /\
  trace (gfor rs (relax_one E library thresh)) = flat_map (relax_steps library thresh) rs.
Proof.
  intros H.
  assert (Hb : forall r, In r rs -> gend (relax_one E library thresh r) = None).
  { intros r Hr. specialize (H r Hr). unfold relax_one; simpl.
    destruct (lookup_by_id E (map_id r)); [reflexivity | congruence]. }
  split; [apply gend_gfor; exact Hb |].
  rewrite trace_gfor by exact Hb. clear Hb. revert H.
  induction rs as [| r rs IH]; intros H; cbn [flat_map]; auto.
  rewrite IH by (intros r0 Hr0; apply H; simpl; auto).
  assert (Hr := H r (or_introl eq_refl)). unfold relax_one, relax_steps; simpl.
  destruct (lookup_by_id E (map_id r)); [reflexivity | congruence].
Qed.

(** The body of [run]: log, load, the steal part, then the relax branch. *)
Lemma trace_run E cg c :
  trace (run E cg c) =
  SEff ELog :: SEff ELoad :: steal_part c ++
  (if det_relax (detect c) then trace (relax_branch E cg c) else []).
Proof.
  unfold run, steal_part. simpl. rewrite trace_gapp.
  destruct (det_steal (detect c)), (det_relax (detect c));
    try rewrite gend_compare, trace_compare; reflexivity.
Qed.

Lemma gend_run E cg c :
  gend (run E cg c) = if det_relax (detect c) then gend (relax_branch E cg c) else None.
Proof.
  unfold run. simpl. rewrite gend_gapp.
  destruct (det_steal (detect c)), (det_relax (detect c));
    try rewrite gend_compare; reflexivity.
Qed.

Lemma relax_branch_ok E cg c :
  lookups_ok E (all_replays c) ->
  gend (relax_branch E cg c) = None /\
  trace (relax_branch E cg c) =
  match cg_slider cg with
  | TempDir n =>
      SEff (EConnect n) ::
      flat_map (relax_steps (LibTemp n) (ur_thresh (detect c))) (all_replays c) ++
      [SEff (EClose n)]
  | Persistent p =>
      flat_map (relax_steps (LibPersistent p) (ur_thresh (detect c))) (all_replays c)
  end.
Proof.
  intros H. unfold relax_branch, library_of. destruct (cg_slider cg) as [n | p].
  - destruct (relax_loop_ok E (LibTemp n) (ur_thresh (detect c)) (all_replays c) H)
      as [Hg Ht].
    simpl. rewrite gend_gapp, trace_gapp, Hg, Ht. split; reflexivity.
  - exact (relax_loop_ok E (LibPersistent p) (ur_thresh (detect c)) (all_replays c) H).
Qed.

(** ** Sample runs *)

Example run_sample :
  exhaust (run all_maps cg_tmp (mkCheck [r1; r2] [] both)) =
  ([ELog; ELoad; ECompare r1 r2; EConnect 0;
    ELookup (LibTemp 0) 10 true true; EInvestigate r1;
    ELookup (LibTemp 0) 10 true true; EInvestigate r2; EClose 0],
   [ComparisonResult r1 r2 18; RelaxResult r1 50; RelaxResult r2 50], None).
Proof. reflexivity. Qed.

Example drive_sample :
  drive 1 (run all_maps cg_tmp (mkCheck [r1; r2] [] both)) =
  ([ELog; ELoad; ECompare r1 r2], [ComparisonResult r1 r2 18],
   Suspended (gapp GDone (relax_branch all_maps cg_tmp (mkCheck [r1; r2] [] both)))).
Proof. reflexivity. Qed.

(** ** Structure of [run] used by the claims *)

Lemma Forall_flat_map {A B} (P : B -> Prop) (f : A -> list B) xs :
  (forall x, In x xs -> Forall P (f x)) -> Forall P (flat_map f xs).
Proof.
  induction xs as [| x xs IH]; intros H; simpl; auto.
  apply Forall_app; split; [apply H; simpl; auto | apply IH; intros; apply H; simpl; auto].
Qed.

Lemma paired_flat_map {A} (f : A -> list step) xs :
  (forall x, paired (f x)) -> paired (flat_map f xs).
Proof.
  induction xs as [| x xs IH]; intros H; simpl; [constructor |].
  apply paired_app; auto.
Qed.

Lemma effects_of_flat_map {A} (f : A -> list step) xs :
  effects_of (flat_map f xs) = flat_map (fun x => effects_of (f x)) xs.
Proof.
  induction xs as [| x xs IH]; simpl; auto. rewrite effects_of_app, IH; reflexivity.
Qed.

Lemma results_of_flat_map {A} (f : A -> list step) xs :
  results_of (flat_map f xs) = flat_map (fun x => results_of (f x)) xs.
Proof.
  induction xs as [| x xs IH]; simpl; auto. rewrite results_of_app, IH; reflexivity.
Qed.

Lemma steal_part_paired c : paired (steal_part c).
Proof.
  unfold steal_part. destruct (det_steal (detect c)); [| constructor].
  apply paired_flat_map. intros p.
  apply paired_work; [reflexivity | constructor].
Qed.

Lemma relax_one_paired E library thresh r : paired (trace (relax_one E library thresh r)).
Proof.
  unfold relax_one; simpl. apply paired_eff; [reflexivity |].
  destruct (lookup_by_id E (map_id r)); simpl; [| constructor].
  apply paired_work; [reflexivity | repeat constructor].
Qed.

Lemma relax_branch_paired E cg c : paired (trace (relax_branch E cg c)).
Proof.
  unfold relax_branch, library_of. destruct (cg_slider cg); simpl.
  - apply paired_eff; [reflexivity |]. rewrite trace_gapp.
    apply paired_app; [apply trace_gfor_paired; intros; apply relax_one_paired |].
    destruct (gend _); [constructor | apply paired_eff; [reflexivity | constructor]].
  - apply trace_gfor_paired; intros; apply relax_one_paired.
Qed.

Lemma run_paired E cg c : paired (trace (run E cg c)).
Proof.
  rewrite trace_run.
  apply paired_eff; [reflexivity |]. apply paired_eff; [reflexivity |].
  apply paired_app; [apply steal_part_paired |].
  destruct (det_relax (detect c)); [apply relax_branch_paired | constructor].
Qed.

Lemma steal_part_effects c :
  Forall (fun e => exists a b, e = ECompare a b) (effects_of (steal_part c)).
Proof.
  unfold steal_part. destruct (det_steal (detect c)); [| constructor].
  rewrite effects_of_flat_map. apply Forall_flat_map. intros p _.
  simpl. constructor; [eauto | constructor].
Qed.

(** ** Claims *)

(** C4: [run] is lazy and pull-driven.  Whatever the check, after [n] calls of
    [next()] the body has performed only a prefix of its effects, and at most
    [n] detector computations (comparisons or relax investigations) have run;
    a consumer that stops after [n] results causes nothing beyond that. *)
Theorem run_pull_driven E cg c n :
  (exists rest, effects_of (trace (run E cg c)) = abandon_after n (run E cg c) ++ rest) /\
  count_work (abandon_after n (run E cg c)) <= n.
Proof.
  split; [apply drive_prefix |].
  unfold abandon_after.
  pose proof (drive_work_bound (gsize (run E cg c)) n (run E cg c) (le_n _)
                (run_paired E cg c)).
  lia.
Qed.

(** C5: with no detector enabled, any number [n >= 1] of [next()] calls sees
    the body log and load the check, yield nothing and return (StopIteration). *)
Theorem run_no_detectors E cg c n :
  det_steal (detect c) = false -> det_relax (detect c) = false ->
  drive (S n) (run E cg c) = ([ELog; ELoad], [], Finished None).
Proof.
  intros Hs Hr. unfold run. rewrite Hs, Hr. reflexivity.
Qed.

Lemma run_no_detectors_witness :
  drive 1 (run all_maps cg_tmp (mkCheck [r1; r2; r3] [r3] (mkDetect false false true 18 50)))
  = ([ELog; ELoad], [], Finished None).
Proof. apply run_no_detectors; reflexivity. Defined.

(** C6: with an empty replay set, whatever detectors are enabled, [run] yields
    no result and returns normally. *)
Theorem run_empty_replays E cg c n :
  all_replays c = [] ->
  snd (fst (drive (S n) (run E cg c))) = [] /\ snd (drive (S n) (run E cg c)) = Finished None.
Proof.
  intros H. unfold run, compare, relax_branch, library_of. rewrite H, compare_pairs_nil.
  destruct (det_steal (detect c)), (det_relax (detect c)), (cg_slider cg); simpl;
    split; reflexivity.
Qed.

Lemma run_empty_replays_witness :
  snd (fst (drive 3 (run all_maps cg_tmp (mkCheck [] [r1] both)))) = [] /\
  snd (drive 3 (run all_maps cg_tmp (mkCheck [] [r1] both))) = Finished None.
Proof. apply run_empty_replays; reflexivity. Defined.

(** C8: without the relax detector, no Library handle is connected, queried or
    closed: whatever the consumer pulls, the only effects are the log line,
    the loading of the check and steal comparisons. *)
Theorem run_without_relax_no_library E cg c n :
  det_relax (detect c) = false ->
  Forall (fun e => is_library_effect e = false /\
                   (e = ELog \/ e = ELoad \/ exists a b, e = ECompare a b))
         (abandon_after n (run E cg c)).
Proof.
  intros Hr.
  destruct (drive_prefix n (run E cg c)) as [rest Hrest].
  assert (Hall : Forall (fun e => is_library_effect e = false /\
                   (e = ELog \/ e = ELoad \/ exists a b, e = ECompare a b))
                   (effects_of (trace (run E cg c)))).
  { rewrite trace_run, Hr, app_nil_r. simpl.
    constructor; [split; auto |]. constructor; [split; auto |].
    eapply Forall_impl; [| apply steal_part_effects].
    intros e (a & b & ->). split; [reflexivity | eauto]. }
  unfold abandon_after. rewrite Hrest in Hall.
  apply Forall_app in Hall. exact (proj1 Hall).
Qed.

Lemma run_without_relax_no_library_witness :
  Forall (fun e => is_library_effect e = false /\
                   (e = ELog \/ e = ELoad \/ exists a b, e = ECompare a b))
         (abandon_after 5 (run all_maps cg_tmp (mkCheck [r1; r2] [] (mkDetect true false false 18 50)))).
Proof. apply run_without_relax_no_library; reflexivity. Defined.

(** C9: calling [run] only creates the generator: before the first [next()]
    nothing has been done, not even loading; the first [next()] logs and
    loads the check before anything else. *)
Theorem run_call_has_no_effect E cg c :
  abandon_after 0 (run E cg c) = [] /\
  exists es, abandon_after 1 (run E cg c) = ELog :: ELoad :: es.
Proof.
  split; [reflexivity |]. unfold abandon_after, run. simpl.
  destruct (drive 1 _) as [[es rs] st]. simpl. eauto.
Qed.

(** C10: [set_options(cache=b)] on an instance built with [db_path=None] sets
    [self.cache] to [b] and then raises AttributeError ([self.cacher] is
    [None]); on an instance built with a database path it succeeds and also
    sets the cacher's [should_cache]. *)
Theorem set_options_cache_needs_db db_path slider_dir cache tmp b :
  set_options (init db_path slider_dir cache tmp) (Some b) =
  match db_path with
  | None => (init None slider_dir b tmp, Some AttributeError)
  | Some p => (init (Some p) slider_dir b tmp, None)
  end.
Proof. destruct db_path, slider_dir; reflexivity. Qed.

(** ** Ordering of the steal and relax parts *)

Lemma trace_gfor_Forall {A} (P : step -> Prop) (xs : list A) body :
  (forall x, Forall P (trace (body x))) -> Forall P (trace (gfor xs body)).
Proof.
  induction xs as [| x xs IH]; intros H; simpl; [constructor |].
  rewrite trace_gapp. apply Forall_app; split; auto.
  destruct (gend (body x)); [constructor | auto].
Qed.

Lemma relax_branch_no_steal_result E cg c :
  Forall (fun s => is_steal_result s = false) (trace (relax_branch E cg c)).
Proof.
  assert (Hone : forall library r,
             Forall (fun s => is_steal_result s = false)
                    (trace (relax_one E library (ur_thresh (detect c)) r))).
  { intros library r. unfold relax_one; simpl.
    destruct (lookup_by_id E (map_id r)); simpl; repeat constructor. }
  unfold relax_branch, library_of. destruct (cg_slider cg); simpl.
  - constructor; [reflexivity |]. rewrite trace_gapp.
    apply Forall_app; split; [apply trace_gfor_Forall; auto |].
    destruct (gend _); repeat constructor.
  - apply trace_gfor_Forall; auto.
Qed.

Lemma head_no_relax_work c :
  Forall (fun s => is_relax_work s = false) (SEff ELog :: SEff ELoad :: steal_part c).
Proof.
  constructor; [reflexivity |]. constructor; [reflexivity |].
  unfold steal_part. destruct (det_steal (detect c)); [| constructor].
  apply Forall_flat_map. intros p _. repeat constructor.
Qed.

Lemma steal_result_in_head (A B : list step) i s1 :
  Forall (fun s => is_steal_result s = false) B ->
  nth_error (A ++ B) i = Some s1 -> is_steal_result s1 = true -> i < length A.
Proof.
  intros HB Hi Hs1. rewrite Forall_forall in HB.
  destruct (Nat.lt_ge_cases i (length A)) as [Hlt | Hge]; [exact Hlt |].
  rewrite nth_error_app2 in Hi by exact Hge.
  apply nth_error_In in Hi. rewrite (HB _ Hi) in Hs1. discriminate.
Qed.

Lemma relax_work_in_tail (A B : list step) j s2 :
  Forall (fun s => is_relax_work s = false) A ->
  nth_error (A ++ B) j = Some s2 -> is_relax_work s2 = true -> length A <= j.
Proof.
  intros HA Hj Hs2. rewrite Forall_forall in HA.
  destruct (Nat.lt_ge_cases j (length A)) as [Hlt | Hge]; [| exact Hge].
  rewrite nth_error_app1 in Hj by exact Hlt.
  apply nth_error_In in Hj. rewrite (HA _ Hj) in Hs2. discriminate.
Qed.

(** The body of [run] as its steal-side head and its relax part. *)
Lemma run_split E cg c :
  trace (run E cg c) =
  (SEff ELog :: SEff ELoad :: steal_part c) ++
  (if det_relax (detect c) then trace (relax_branch E cg c) else []).
Proof. rewrite trace_run. reflexivity. Qed.

(** C1 (as amended): with both detectors enabled, every steal result comes
    before every step of the relax detector (library connection, map lookup,
    investigation, close); and when the comparer has at least one pair, a
    steal result is yielded before the first relax step. *)
Theorem run_steal_results_first E cg c :
  det_steal (detect c) = true -> det_relax (detect c) = true ->
  (forall i j s1 s2,
      nth_error (trace (run E cg c)) i = Some s1 -> is_steal_result s1 = true ->
      nth_error (trace (run E cg c)) j = Some s2 -> is_relax_work s2 = true ->
      i < j) /\
  (compare_pairs (all_replays c) (all_replays2 c) <> [] ->
   forall j s2,
      nth_error (trace (run E cg c)) j = Some s2 -> is_relax_work s2 = true ->
      exists i s1, i < j /\ nth_error (trace (run E cg c)) i = Some s1 /\
                   is_steal_result s1 = true).
Proof.
  intros Hs Hr. rewrite run_split, Hr.
  pose proof (head_no_relax_work c) as HA.
  pose proof (relax_branch_no_steal_result E cg c) as HB.
  split.
  - intros i j s1 s2 Hi Hs1 Hj Hs2.
    pose proof (steal_result_in_head _ _ i s1 HB Hi Hs1).
    pose proof (relax_work_in_tail _ _ j s2 HA Hj Hs2). lia.
  - intros Hp j s2 Hj Hs2.
    pose proof (relax_work_in_tail _ _ j s2 HA Hj Hs2) as Hlen.
    unfold steal_part in *. rewrite Hs in *.
    destruct (compare_pairs (all_replays c) (all_replays2 c)) as [| p ps];
      [congruence |].
    exists 3, (SYield (ComparisonResult (fst p) (snd p) (steal_thresh (detect c)))).
    simpl in Hlen |- *. split; [lia | split; reflexivity].
Qed.

Lemma run_steal_results_first_witness :
  nth_error (trace (run all_maps cg_tmp (mkCheck [r1; r2] [] both))) 3 =
    Some (SYield (ComparisonResult r1 r2 18)) /\ 3 < 4 /\
  nth_error (trace (run all_maps cg_tmp (mkCheck [r1; r2] [] both))) 4 =
    Some (SEff (EConnect 0)).
Proof.
  destruct (run_steal_results_first all_maps cg_tmp (mkCheck [r1; r2] [] both)
              eq_refl eq_refl) as [Hord _].
  split; [reflexivity |]. split; [| reflexivity].
  apply (Hord 3 4 (SYield (ComparisonResult r1 r2 18)) (SEff (EConnect 0)));
    reflexivity.
Defined.

(** C1 fails as stated: with both detectors and a single replay, the relax
    detector connects the library and investigates while no steal result has
    been, or will ever be, yielded. *)
Lemma run_steal_first_counterexample :
  nth_error (trace (run all_maps cg_tmp one_replay_both)) 2 = Some (SEff (EConnect 0)) /\
  nth_error (trace (run all_maps cg_tmp one_replay_both)) 4 = Some (SEff (EInvestigate r1)) /\
  filter is_steal_result (trace (run all_maps cg_tmp one_replay_both)) = [].
Proof. repeat split; reflexivity. Qed.

(** ** The relax branch: library handle, lookups and failures *)

Lemma relax_steps_effects l t rs :
  effects_of (flat_map (relax_steps l t) rs) =
  flat_map (fun r => [ELookup l (map_id r) true true; EInvestigate r]) rs.
Proof. rewrite effects_of_flat_map. reflexivity. Qed.

Lemma relax_steps_results l t rs :
  results_of (flat_map (relax_steps l t) rs) = map (fun r => RelaxResult r t) rs.
Proof.
  rewrite results_of_flat_map.
  induction rs as [| r rs IH]; cbn [flat_map map]; [reflexivity | rewrite IH; reflexivity].
Qed.

Lemma relax_loop_fail E library thresh pre r post :
  lookups_ok E pre -> lookup_by_id E (map_id r) = None ->
  gend (gfor (pre ++ r :: post) (relax_one E library thresh)) = Some (UnknownMap (map_id r)) /\
  trace (gfor (pre ++ r :: post) (relax_one E library thresh)) =
  flat_map (relax_steps library thresh) pre ++ [SEff (ELookup library (map_id r) true true)].
Proof.
  intros Hpre Hr. destruct (relax_loop_ok E library thresh pre Hpre) as [Hg Ht].
  rewrite gfor_app, gend_gapp, trace_gapp, Hg, Ht. simpl.
  unfold relax_one at 1. rewrite Hr. simpl. split; reflexivity.
Qed.

Lemma not_connect_close_compare c :
  Forall (fun e => is_connect e = false /\ is_close e = false) (effects_of (steal_part c)).
Proof.
  eapply Forall_impl; [| apply steal_part_effects].
  intros e (a & b & ->). split; reflexivity.
Qed.

Lemma not_connect_close_relax l t rs :
  Forall (fun e => is_connect e = false /\ is_close e = false)
         (effects_of (flat_map (relax_steps l t) rs)).
Proof.
  rewrite relax_steps_effects. apply Forall_flat_map. intros r _. repeat constructor.
Qed.

(** C2 (code bug): the temporary Library is released only on the path that
    reaches [library.close()] after the loop.  A consumer that abandons the
    stream after the first relax result leaves it connected, while draining
    the same run closes it. *)
Theorem run_abandon_leaves_temp_library_open :
  abandon_after 1 (run all_maps cg_tmp (mkCheck [r1; r3] [] relax_only)) =
    [ELog; ELoad; EConnect 0; ELookup (LibTemp 0) 10 true true; EInvestigate r1] /\
  filter is_close (abandon_after 1 (run all_maps cg_tmp (mkCheck [r1; r3] [] relax_only))) = [] /\
  filter is_close (fst (fst (exhaust (run all_maps cg_tmp (mkCheck [r1; r3] [] relax_only))))) =
    [EClose 0].
Proof. repeat split; reflexivity. Qed.

(** C3 (as amended): a map lookup that fails for replay [r] is not isolated:
    the exception ends the stream.  The consumer has received the steal
    results and the relax results of the replays before [r], and no later
    replay is investigated. *)
Theorem run_lookup_failure_propagates E cg c pre r post :
  det_relax (detect c) = true ->
  all_replays c = pre ++ r :: post ->
  lookups_ok E pre -> lookup_by_id E (map_id r) = None ->
  snd (fst (exhaust (run E cg c))) =
    results_of (steal_part c) ++ map (fun x => RelaxResult x (ur_thresh (detect c))) pre /\
  snd (exhaust (run E cg c)) = Some (UnknownMap (map_id r)).
Proof.
  intros Hr Hc Hpre Hf. rewrite exhaust_trace. cbn [fst snd].
  destruct (relax_loop_fail E (library_of cg) (ur_thresh (detect c)) pre r post Hpre Hf)
    as [Hg Ht].
  rewrite trace_run, gend_run, Hr. unfold relax_branch. cbn zeta. rewrite Hc.
  destruct (cg_slider cg).
  - cbn [trace gend]. rewrite trace_gapp, gend_gapp, Hg, Ht, app_nil_r.
    split; [| reflexivity].
    rewrite !results_of_cons_eff, results_of_app, results_of_cons_eff, results_of_app,
      relax_steps_results, results_of_cons_eff, app_nil_r. reflexivity.
  - rewrite Hg, Ht. split; [| reflexivity].
    rewrite !results_of_cons_eff, !results_of_app, relax_steps_results,
      results_of_cons_eff, app_nil_r. reflexivity.
Qed.

Lemma run_lookup_failure_propagates_witness :
  snd (fst (exhaust (run no_map10 cg_tmp (mkCheck [r3; r1; r2] [] relax_only)))) =
    [RelaxResult r3 50] /\
  snd (exhaust (run no_map10 cg_tmp (mkCheck [r3; r1; r2] [] relax_only))) =
    Some (UnknownMap 10).
Proof.
  apply (run_lookup_failure_propagates no_map10 cg_tmp (mkCheck [r3; r1; r2] [] relax_only)
           [r3] r1 [r2]).
  - reflexivity.
  - reflexivity.
  - intros r [<- | []]; simpl; discriminate.
  - reflexivity.
Defined.

(** C3 fails as stated: the map of [r1] cannot be resolved, and [r3], whose
    map resolves, gets no result: the stream ends with the exception. *)
Lemma run_lookup_failure_counterexample :
  snd (fst (exhaust (run no_map10 cg_tmp (mkCheck [r1; r3] [] relax_only)))) = [] /\
  snd (exhaust (run no_map10 cg_tmp (mkCheck [r1; r3] [] relax_only))) = Some (UnknownMap 10).
Proof. split; reflexivity. Qed.

Lemma relax_loop_lookups E library thresh rs :
  filter is_lookup (effects_of (trace (gfor rs (relax_one E library thresh)))) =
  map (fun r => ELookup library (map_id r) true true) (lookups_until_failure E rs) /\
  (gend (gfor rs (relax_one E library thresh)) = None -> lookups_ok E rs).
Proof.
  induction rs as [| r rs [IH1 IH2]]; [split; [reflexivity | intros _ x []] |].
  cbn [gfor lookups_until_failure]. rewrite trace_gapp, gend_gapp.
  assert (Hr : relax_one E library thresh r =
    GEff (ELookup library (map_id r) true true)
      (match lookup_by_id E (map_id r) with
       | None => GRaise (UnknownMap (map_id r))
       | Some bm => investigate r bm thresh
       end)) by reflexivity.
  rewrite Hr. destruct (lookup_by_id E (map_id r)) eqn:Hl; simpl.
  - split; [rewrite IH1; reflexivity |].
    intros Hg x [<- | Hx]; [congruence | exact (IH2 Hg x Hx)].
  - split; [reflexivity | discriminate].
Qed.

Lemma lookups_until_failure_ok E rs :
  lookups_ok E rs -> lookups_until_failure E rs = rs.
Proof.
  induction rs as [| r rs IH]; intros H; simpl; [reflexivity |].
  destruct (lookup_by_id E (map_id r)) eqn:Hl.
  - rewrite IH; [reflexivity | intros x Hx; apply H; simpl; auto].
  - exfalso. apply (H r); simpl; auto.
Qed.

(** C7 (as amended): a drained run with the relax detector calls
    [lookup_by_id(map_id, download=True, save=True)] once per replay, in
    replay order, up to and including the first replay whose lookup fails
    (the failure ends the run); when every map resolves, that is once per
    replay of the check.  Replays sharing a map id each cause their own
    request; storing and reusing the map is left to the Library. *)
Theorem run_lookup_per_replay E cg c :
  det_relax (detect c) = true ->
  filter is_lookup (fst (fst (exhaust (run E cg c)))) =
    map (fun r => ELookup (library_of cg) (map_id r) true true)
        (lookups_until_failure E (all_replays c)) /\
  (lookups_ok E (all_replays c) ->
   lookups_until_failure E (all_replays c) = all_replays c).
Proof.
  intros Hr. split; [| apply lookups_until_failure_ok].
  rewrite exhaust_trace. cbn [fst snd].
  rewrite trace_run, Hr.
  assert (Hs : filter is_lookup (effects_of (steal_part c)) = []).
  { generalize (steal_part_effects c). generalize (effects_of (steal_part c)).
    intros l H. induction H as [| e l (a & b & ->) _ IH]; simpl; auto. }
  destruct (relax_loop_lookups E (library_of cg) (ur_thresh (detect c)) (all_replays c))
    as [Hl _].
  unfold relax_branch. cbn zeta.
  rewrite !effects_of_cons_eff, effects_of_app. cbn [filter is_lookup].
  rewrite filter_app, Hs. cbn [app].
  unfold library_of in Hl |- *. destruct (cg_slider cg) as [n | p].
  - cbn [trace]. rewrite effects_of_cons_eff, trace_gapp, effects_of_app.
    cbn [filter is_lookup]. rewrite filter_app, Hl.
    destruct (gend _); simpl; [apply app_nil_r | apply app_nil_r].
  - exact Hl.
Qed.

Lemma run_lookup_per_replay_witness :
  filter is_lookup (fst (fst (exhaust (run no_map10 cg_tmp (mkCheck [r3; r1; r2] [] both))))) =
    [ELookup (LibTemp 0) 20 true true; ELookup (LibTemp 0) 10 true true] /\
  (lookups_ok no_map10 [r3; r1; r2] -> lookups_until_failure no_map10 [r3; r1; r2] = [r3; r1; r2]).
Proof.
  exact (run_lookup_per_replay no_map10 cg_tmp (mkCheck [r3; r1; r2] [] both) eq_refl).
Defined.

(** C7 fails as stated: two replays on the same map (id 10) give two requests
    for that one map id within a single run. *)
Lemma run_lookup_per_map_counterexample :
  filter is_lookup (fst (fst (exhaust (run all_maps cg_tmp (mkCheck [r1; r2] [] relax_only))))) =
  [ELookup (LibTemp 0) 10 true true; ELookup (LibTemp 0) 10 true true].
Proof. reflexivity. Qed.

(** ** Further properties of [circleguard.py] *)

(** [load] after [set_options(cache=b)] passes [cache=b] to the loadable,
    also on an instance without a database, where [set_options] raised
    AttributeError after having set [self.cache]. *)
Theorem load_after_set_options cg b :
  load (fst (set_options cg (Some b))) = LoadableLoad b.
Proof. unfold set_options. destruct (cg_cacher cg); reflexivity. Qed.

(** [run] never reads the correction flag of [Detect]: two checks that
    differ only there give the same run. *)
Theorem run_ignores_correction E cg rs rs2 s r b1 b2 st ut :
  run E cg (mkCheck rs rs2 (mkDetect s r b1 st ut)) =
  run E cg (mkCheck rs rs2 (mkDetect s r b2 st ut)).
Proof. reflexivity. Qed.


(** On an instance with a temporary slider directory, a consumer that stops
    after the first relax result (steal detector off) leaves the temporary
    Library connected: the connection was made and [library.close()] never
    runs. *)
Theorem run_abandon_keeps_temp_library E cg c n r rs :
  cg_slider cg = TempDir n -> det_steal (detect c) = false ->
  det_relax (detect c) = true -> all_replays c = r :: rs ->
  lookup_by_id E (map_id r) <> None ->
  abandon_after 1 (run E cg c) =
  [ELog; ELoad; EConnect n; ELookup (LibTemp n) (map_id r) true true; EInvestigate r].
Proof.
  intros Hs Hst Hr Hc Hl.
  unfold abandon_after, run, relax_branch, library_of.
  rewrite Hst, Hr, Hs, Hc. simpl.
  unfold relax_one. destruct (lookup_by_id E (map_id r)); [| congruence].
  destruct rs; reflexivity.
Qed.

Lemma run_abandon_keeps_temp_library_witness :
  abandon_after 1 (run all_maps cg_tmp (mkCheck [r1; r3] [] relax_only)) =
  [ELog; ELoad; EConnect 0; ELookup (LibTemp 0) 10 true true; EInvestigate r1].
Proof.
  apply (run_abandon_keeps_temp_library all_maps cg_tmp (mkCheck [r1; r3] [] relax_only)
           0 r1 [r3]); try reflexivity. simpl; discriminate.
Defined.

(** On an instance with a temporary slider directory, a failing map lookup
    ends the stream with the temporary Library connected and never closed. *)
Theorem run_lookup_failure_keeps_temp_library E cg c n pre r post :
  cg_slider cg = TempDir n -> det_relax (detect c) = true ->
  all_replays c = pre ++ r :: post ->
  lookups_ok E pre -> lookup_by_id E (map_id r) = None ->
  In (EConnect n) (fst (fst (exhaust (run E cg c)))) /\
  filter is_close (fst (fst (exhaust (run E cg c)))) = [] /\
  snd (exhaust (run E cg c)) = Some (UnknownMap (map_id r)).
Proof.
  intros Hs Hr Hc Hpre Hf. rewrite exhaust_trace. cbn [fst snd].
  destruct (relax_loop_fail E (library_of cg) (ur_thresh (detect c)) pre r post Hpre Hf)
    as [Hg Ht].
  rewrite trace_run, gend_run, Hr. unfold relax_branch. cbn zeta. rewrite Hc, Hs.
  cbn [trace gend]. rewrite trace_gapp, gend_gapp, Hg, Ht, app_nil_r.
  rewrite !effects_of_cons_eff, effects_of_app, effects_of_cons_eff, effects_of_app.
  assert (Hsc : filter is_close (effects_of (steal_part c)) = []).
  { generalize (steal_part_effects c). generalize (effects_of (steal_part c)).
    intros l H. induction H as [| e l (a & b & ->) _ IH]; simpl; auto. }
  assert (Hrc : forall l t rs,
             filter is_close (effects_of (flat_map (relax_steps l t) rs)) = []).
  { intros l t rs. rewrite relax_steps_effects.
    induction rs as [| x rs IH]; cbn [flat_map]; [reflexivity |].
    rewrite filter_app, IH. reflexivity. }
  split; [| split; [| reflexivity]].
  - right. right. apply in_or_app. right. left. reflexivity.
  - cbn [filter is_close]. rewrite filter_app, Hsc. cbn [app filter is_close].
    rewrite filter_app, Hrc. reflexivity.
Qed.

Lemma run_lookup_failure_keeps_temp_library_witness :
  In (EConnect 0) (fst (fst (exhaust (run no_map10 cg_tmp (mkCheck [r3; r1] [] relax_only))))) /\
  filter is_close (fst (fst (exhaust (run no_map10 cg_tmp (mkCheck [r3; r1] [] relax_only))))) = [] /\
  snd (exhaust (run no_map10 cg_tmp (mkCheck [r3; r1] [] relax_only))) = Some (UnknownMap 10).
Proof.
  apply (run_lookup_failure_keeps_temp_library no_map10 cg_tmp
           (mkCheck [r3; r1] [] relax_only) 0 [r3] r1 []); try reflexivity.
  intros x [<- | []]; simpl; discriminate.
Defined.

(** With the relax detector and a temporary slider directory, an empty
    replay set still connects the temporary Library and closes it at once,
    without any lookup or result. *)
Theorem run_relax_empty_set_connects E cg c n :
  cg_slider cg = TempDir n -> det_relax (detect c) = true -> all_replays c = [] ->
  exhaust (run E cg c) = ([ELog; ELoad; EConnect n; EClose n], [], None).
Proof.
  intros Hs Hr Hc. unfold run, relax_branch, library_of, compare.
  rewrite Hr, Hs, Hc, compare_pairs_nil.
  destruct (det_steal (detect c)); reflexivity.
Qed.

Lemma run_relax_empty_set_connects_witness :
  exhaust (run all_maps cg_tmp (mkCheck [] [r1] both)) =
  ([ELog; ELoad; EConnect 0; EClose 0], [], None).
Proof. apply run_relax_empty_set_connects; reflexivity. Defined.

Lemma relax_branch_no_compare E cg c :
  Forall (fun s => is_compare_step s = false) (trace (relax_branch E cg c)).
Proof.
  assert (Hone : forall library r,
             Forall (fun s => is_compare_step s = false)
                    (trace (relax_one E library (ur_thresh (detect c)) r))).
  { intros library r. unfold relax_one; simpl.
    destruct (lookup_by_id E (map_id r)); simpl; repeat constructor. }
  unfold relax_branch, library_of. destruct (cg_slider cg); simpl.
  - constructor; [reflexivity |]. rewrite trace_gapp.
    apply Forall_app; split; [apply trace_gfor_Forall; auto |].
    destruct (gend _); repeat constructor.
  - apply trace_gfor_Forall; auto.
Qed.

(** Without the steal detector, [run] performs no comparison and yields no
    comparison result, whatever the consumer pulls. *)
Theorem run_without_steal_no_comparison E cg c :
  det_steal (detect c) = false ->
  forall s, In s (trace (run E cg c)) ->
  is_compare_step s = false /\ is_steal_result s = false.
Proof.
  intros Hst s Hin. rewrite trace_run in Hin. unfold steal_part in Hin.
  rewrite Hst in Hin. simpl in Hin.
  destruct Hin as [<- | [<- | Hin]]; [split; reflexivity | split; reflexivity |].
  destruct (det_relax (detect c)); [| destruct Hin].
  pose proof (relax_branch_no_compare E cg c) as H1.
  pose proof (relax_branch_no_steal_result E cg c) as H2.
  rewrite Forall_forall in H1, H2. split; auto.
Qed.

Lemma run_without_steal_no_comparison_witness :
  In (SEff (EInvestigate r2)) (trace (run all_maps cg_tmp (mkCheck [r1; r2] [r3] relax_only))) /\
  is_compare_step (SEff (EInvestigate r2)) = false /\
  is_steal_result (SEff (EInvestigate r2)) = false.
Proof.
  assert (Hin : In (SEff (EInvestigate r2))
                   (trace (run all_maps cg_tmp (mkCheck [r1; r2] [r3] relax_only)))).
  { simpl. tauto. }
  split; [exact Hin |].
  exact (run_without_steal_no_comparison all_maps cg_tmp (mkCheck [r1; r2] [r3] relax_only)
           eq_refl _ Hin).
Defined.
